(** * European call option under stochastic volatility

    Verification development for [day2/homework/european_call_option.ipynb].

    The notebook is a Jupyter document: a list of cells, each either
    markdown (exposition, never executed) or Python code.  The first part
    below embeds the document as data and gives an executable semantics to
    the fragment of Python that its code cells use: assignments of numeric
    literals to global names.  The second part models the Monte Carlo
    computation that the exercise asks for, once over the real numbers
    and once in double precision. *)

From Stdlib Require Import ZArith QArith Reals Lra Lia List String Ascii.
From Stdlib Require Import Floats.PrimFloat.
From stdpp Require Import base option gmap strings.
Import ListNotations.

Local Open Scope string_scope.

(** ** The notebook document *)

Module Notebook.

Inductive cell_kind := markdown | code.

(** A cell as the [.ipynb] JSON has it.  [source] holds the cell's lines;
    the line terminator that the JSON keeps at the end of every line but
    the last is the separator between the elements of the list. *)
Record cell := {
  cell_type : cell_kind;
  execution_count : option Z;
  source : list string
}.

Definition is_code (c : cell) : bool :=
  match cell_type c with code => true | markdown => false end.

Definition code_cells (nb : list cell) : list cell := List.filter is_code nb.

(** [day2/homework/european_call_option.ipynb], cell by cell. *)
Definition european_call_option : list cell :=
  [
    (* cell 0 *)
    {| cell_type := markdown; execution_count := None;
       source := [
         "## Exercise: Pricing a European Call Option under Risk Neutrality"] |};
    (* cell 1 *)
    {| cell_type := markdown; execution_count := None;
       source := [
         "#### John Stachurski"] |};
    (* cell 2 *)
    {| cell_type := markdown; execution_count := None;
       source := [
         "Let's price a European option under the assumption of risk neutrality (for simplicity).";
         "";
         "Suppose that the current time is $t=0$ and the expiry date is $n$."] |};
    (* cell 3 *)
    {| cell_type := markdown; execution_count := None;
       source := [
         "We need to evaluate";
         "";
         "$$ P_0 = \beta^n \mathbb E_0 \max\{ S_n - K, 0 \} $$";
         "";
         "given ";
         "";
         "* the discount factor $\beta$";
         "* the strike price $K$";
         "* the stochastic process $\{S_t\}$";
         ""] |};
    (* cell 4 *)
    {| cell_type := markdown; execution_count := None;
       source := [
         "A common model for $\{S_t\}$ is";
         "";
         "$$ \ln \frac{S_{t+1}}{S_t} = \mu + \sigma \xi_{t+1} $$";
         "";
         "where $\{ \xi_t \}$ is IID and standard normal.  However, its predictions are in some ways counterfactual.  For example, volatility is not stationary but rather changes over time.  Here's an improved version:";
         "";
         "$$ \ln \frac{S_{t+1}}{S_t} = \mu + \sigma_t \xi_{t+1} $$";
         "";
         "where ";
         "";
         "$$ ";
         "    \sigma_t = \exp(h_t), ";
         "    \quad";
         "        h_{t+1} = \rho h_t + \nu \eta_{t+1}";
         "$$"] |};
    (* cell 5 *)
    {| cell_type := markdown; execution_count := None;
       source := [
         "Compute the price of the option $P_0$ by Monte Carlo, averaging over realizations $S_n^1, \ldots, S_n^M$ of $S_n$ and appealing to the law of large numbers:";
         "";
         "$$ \mathbb E_0 \max\{ S_n - K, 0 \} ";
         "    \approx";
         "    \frac{1}{M} \sum_{m=1}^M \max \{S_n^m - K, 0 \}";
         "    $$"] |};
    (* cell 6 *)
    {| cell_type := markdown; execution_count := None;
       source := [
         "Use the following parameters:"] |};
    (* cell 7 *)
    {| cell_type := code; execution_count := Some 20%Z;
       source := [
         "β = 0.96";
         "μ = 0.005";
         "S0 = 10";
         "h0 = 0";
         "K = 100";
         "n = 10";
         "ρ = 0.5";
         "ν = 0.01";
         "M = 5_000_000"] |};
    (* cell 8 *)
    {| cell_type := markdown; execution_count := None;
       source := [
         "**Suggestion**: Start without jitting your functions, as jitted functions are harder to debug.  Chose a smaller value for `M` and try to get your code to run.  Then think about jitting.";
         "";
         "The distribution of prices is heavy tailed, so the result has high variance even for large `M`.  My best estimate is around $1,530."] |};
    (* cell 9 *)
    {| cell_type := code; execution_count := None;
       source := [] |}
  ].

End Notebook.

(** ** The Python fragment of the code cells

    The code cells contain nothing but statements of the form
    [NAME = NUMBER].  The fragment is given the semantics Python gives it:
    a numeric literal denotes an [int] or a [float], and a module-level
    assignment binds the name in the dictionary of globals. *)

Module Python.

(** Python values that the fragment can produce.  A [float] literal is
    kept as the decimal fraction that it writes (the value that CPython
    then rounds to the nearest double). *)
Inductive value :=
  | PyInt (z : Z)
  | PyFloat (q : Q).

Inductive expr := Constant (v : value).

Inductive stmt := Assign (target : string) (e : expr).

(** The dictionary of module globals. *)
Abbreviation globals := (gmap string value).

Definition is_digit (c : ascii) : bool :=
  (48 <=? nat_of_ascii c)%nat && (nat_of_ascii c <=? 57)%nat.

Definition digit_value (c : ascii) : Z := Z.of_nat (nat_of_ascii c - 48).

Definition is_underscore (c : ascii) : bool := (nat_of_ascii c =? 95)%nat.

(** [digitpart ::= digit (["_"] digit)*] of the Python lexical grammar.
    [digits_after] reads the rest of a digit part whose previous
    character was a digit; the result is the number read and how many
    digits it has. *)
Fixpoint digits_after (acc : Z) (k : nat) (cs : list ascii) : option (Z * nat) :=
  match cs with
  | [] => Some (acc, k)
  | c :: cs' =>
      if is_digit c then digits_after (10 * acc + digit_value c) (S k) cs'
      else if is_underscore c then
        match cs' with
        | d :: cs'' =>
            if is_digit d
            then digits_after (10 * acc + digit_value d) (S k) cs''
            else None
        | [] => None
        end
      else None
  end.

Definition digitpart (cs : list ascii) : option (Z * nat) :=
  match cs with
  | d :: cs' => if is_digit d then digits_after (digit_value d) 1 cs' else None
  | [] => None
  end.

Definition starts_with_zero (cs : list ascii) : bool :=
  match cs with
  | c :: _ => (nat_of_ascii c =? 48)%nat
  | [] => false
  end.

(** [decinteger]: a digit part that does not start with [0], or one made
    of zeros only. *)
Definition decinteger (cs : list ascii) : option Z :=
  match digitpart cs with
  | Some (z, _) =>
      if starts_with_zero cs && negb (z =? 0)%Z then None else Some z
  | None => None
  end.

(** Splits at the first ['.'] (code 46), when there is one. *)
Fixpoint split_point (cs : list ascii) : option (list ascii * list ascii) :=
  match cs with
  | [] => None
  | c :: cs' =>
      if (nat_of_ascii c =? 46)%nat then Some ([], cs')
      else match split_point cs' with
           | Some (i, f) => Some (c :: i, f)
           | None => None
           end
  end.

(** [pointfloat] of the form [digitpart "." digitpart]: the literal
    [i.f] with [k] fraction digits denotes [(i * 10^k + f) / 10^k]. *)
Definition pointfloat (i f : list ascii) : option Q :=
  match digitpart i, digitpart f with
  | Some (zi, _), Some (zf, k) =>
      Some (Qmake (zi * 10 ^ Z.of_nat k + zf) (Z.to_pos (10 ^ Z.of_nat k)))
  | _, _ => None
  end.

(** The value of a numeric literal; [None] for anything outside the
    two forms above. *)
Definition eval_number (s : string) : option value :=
  let cs := list_ascii_of_string s in
  match split_point cs with
  | Some (i, f) => option_map PyFloat (pointfloat i f)
  | None => option_map PyInt (decinteger cs)
  end.

(** Identifier characters: ASCII letters, the underscore, digits after
    the first character, and every non-ASCII byte (the UTF-8 encoding of
    the Greek letters that the notebook uses as names). *)
Definition is_id_start (c : ascii) : bool :=
  let n := nat_of_ascii c in
  ((65 <=? n) && (n <=? 90) || (97 <=? n) && (n <=? 122) || (n =? 95) || (128 <=? n))%nat.

Definition is_id_continue (c : ascii) : bool := is_id_start c || is_digit c.

Definition is_identifier (s : string) : bool :=
  match list_ascii_of_string s with
  | c :: cs => is_id_start c && forallb is_id_continue cs
  | [] => false
  end.

(** The words of a line, separated by spaces (code 32). *)
Fixpoint words_aux (cur : list ascii) (cs : list ascii) : list string :=
  let flush := match cur with
               | [] => []
               | _ => [string_of_list_ascii (rev cur)]
               end in
  match cs with
  | [] => flush
  | c :: cs' =>
      if (nat_of_ascii c =? 32)%nat then flush ++ words_aux [] cs'
      else words_aux (c :: cur) cs'
  end.

Definition words (s : string) : list string :=
  words_aux [] (list_ascii_of_string s).

(** One logical line: blank, or [NAME = NUMBER].  The outer option is
    [None] when the line is outside the fragment. *)
Definition parse_line (s : string) : option (option stmt) :=
  match words s with
  | [] => Some None
  | [x; eq; lit] =>
      if is_identifier x && String.eqb eq "=" then
        match eval_number lit with
        | Some v => Some (Some (Assign x (Constant v)))
        | None => None
        end
      else None
  | _ => None
  end.

Fixpoint parse_lines (ls : list string) : option (list stmt) :=
  match ls with
  | [] => Some []
  | l :: ls' =>
      match parse_line l, parse_lines ls' with
      | Some (Some st), Some sts => Some (st :: sts)
      | Some None, Some sts => Some sts
      | _, _ => None
      end
  end.

Definition eval (e : expr) : value :=
  match e with Constant v => v end.

Definition exec (g : globals) (st : stmt) : globals :=
  match st with Assign x e => <[x := eval e]> g end.

Definition exec_all (g : globals) (sts : list stmt) : globals :=
  fold_left exec sts g.

(** Running a code cell in the namespace [g]. *)
Definition run_cell (g : globals) (c : Notebook.cell) : option globals :=
  option_map (exec_all g) (parse_lines (Notebook.source c)).

(** Running the notebook top to bottom from a fresh kernel: code cells
    in document order, markdown cells skipped. *)
Fixpoint run_cells (g : globals) (cs : list Notebook.cell) : option globals :=
  match cs with
  | [] => Some g
  | c :: cs' =>
      match run_cell g c with
      | Some g' => run_cells g' cs'
      | None => None
      end
  end.

Definition run_notebook (nb : list Notebook.cell) : option globals :=
  run_cells ∅ (Notebook.code_cells nb).

(** All statements of the notebook's code cells, in order. *)
Definition program (nb : list Notebook.cell) : option (list stmt) :=
  parse_lines (concat (map Notebook.source (Notebook.code_cells nb))).

End Python.

Import Notebook Python.

(** ** The pricing model over the real numbers *)

Module Model.

Local Open Scope R_scope.

(** *** The random-number source *)

(** Modelled from the spec: the source of standard-normal variates, an
    external collaborator of the computation (6).  A generator state is
    the sequence of variates that the source will return together with
    the number already consumed; a computation that draws threads the
    state. *)
Record rng := { variates : nat -> R; consumed : nat }.

Definition Rand (A : Type) : Type := rng -> A * rng.

#[global] Instance Rand_ret : MRet Rand := fun A (a : A) (g : rng) => (a, g).

#[global] Instance Rand_bind : MBind Rand :=
  fun A B (f : A -> Rand B) (m : Rand A) (g : rng) =>
    let (a, g') := m g in f a g'.

(** Modelled from the spec: one draw of a standard-normal variate, the
    next one of the source, which then counts one more consumed. *)
Definition randn : Rand R := fun g =>
  (variates g (consumed g),
   {| variates := variates g; consumed := S (consumed g) |}).

(** The generator state after [k] further draws. *)
Definition advance (g : rng) (k : nat) : rng :=
  {| variates := variates g; consumed := (consumed g + k)%nat |}.

(** [for _ in range(k): a = body(a)]. *)
Fixpoint repeat_m {A : Type} (k : nat) (body : A -> Rand A) (a : A) : Rand A :=
  match k with
  | O => mret a
  | S k' => a' ← body a; repeat_m k' body a'
  end.

(** Modelled from the spec: the path simulator (4.1), which the notebook
    leaves to the reader (its implementation cell is empty).  The state
    of a path is the pair [(S_t, h_t)].  One step draws [ξ_{t+1}] and
    [η_{t+1}], in this order, and applies the equations of cell 4:
    [σ_t = exp(h_t)], [ln(S_{t+1}/S_t) = μ + σ_t·ξ_{t+1}] and
    [h_{t+1} = ρ·h_t + ν·η_{t+1}], the price carried directly. *)
Definition path_step (μ ρ ν : R) (st : R * R) : Rand (R * R) :=
  let (s, h) := st in
  ξ ← randn;
  η ← randn;
  let h' := ρ * h + ν * η in
  let σ := exp h in
  mret (s * exp (μ + σ * ξ), h').

(** Modelled from the spec: the state [(S_t, h_t)] of a path after [t]
    steps (3, simulation state per path), from [(S0, h0)]. *)
Definition path_state (μ S0 h0 ρ ν : R) (t : nat) : Rand (R * R) :=
  repeat_m t (path_step μ ρ ν) (S0, h0).

(** Modelled from the spec: the terminal price [S_n] of one path (4.1),
    [for t = 0 to n-1]. *)
Definition path_simulator (μ S0 h0 : R) (n : Z) (ρ ν : R) : Rand R :=
  st ← path_state μ S0 h0 ρ ν (Z.to_nat n); mret (fst st).

(** Modelled from the spec: the other form that 4.1 allows, which
    accumulates [ln S_t] step by step and exponentiates at the end. *)
Definition log_path_step (μ ρ ν : R) (st : R * R) : Rand (R * R) :=
  let (s, h) := st in
  ξ ← randn;
  η ← randn;
  let h' := ρ * h + ν * η in
  let σ := exp h in
  mret (s + (μ + σ * ξ), h').

(** Modelled from the spec: the terminal price in that form, from
    [ln S0]. *)
Definition path_simulator_log (μ S0 h0 : R) (n : Z) (ρ ν : R) : Rand R :=
  st ← repeat_m (Z.to_nat n) (log_path_step μ ρ ν) (ln S0, h0);
  mret (exp (fst st)).

(** Modelled from the spec: the payoff of the call at expiry,
    [max(S_n - K, 0)] (4.2, cell 3). *)
Definition payoff (K s : R) : R := Rmax (s - K) 0.

(** Modelled from the spec: one iteration of the aggregator (4.2), which
    simulates a path and adds its payoff to the running sum. *)
Definition mc_step (μ S0 h0 K : R) (n : Z) (ρ ν : R) (current_sum : R) : Rand R :=
  s ← path_simulator μ S0 h0 n ρ ν; mret (current_sum + payoff K s).

(** Modelled from the spec: the Monte Carlo aggregator (4.2) behind the
    external interface [price_option(β, μ, S0, h0, K, n, ρ, ν, M)], absent
    from the notebook: [M] paths, the payoffs summed, the mean discounted
    by [β^n] (cells 3 and 5). *)
Definition price_option (β μ S0 h0 K : R) (n : Z) (ρ ν : R) (M : Z) : Rand R :=
  total ← repeat_m (Z.to_nat M) (mc_step μ S0 h0 K n ρ ν) 0;
  mret (powerRZ β n * (1 / IZR M) * total).

(** *** The quantities of the specification *)

(** [Σ_{t<k} f t]. *)
Fixpoint Rsum (f : nat -> R) (k : nat) : R :=
  match k with
  | O => 0
  | S k' => Rsum f k' + f k'
  end.

(** The innovations of the path that starts in generator state [g]:
    [ξ g t] and [η g t] are [ξ_t] and [η_t], for [t = 1, 2, ...]. *)
Definition ξ (g : rng) (t : nat) : R := variates g (consumed g + 2 * (t - 1))%nat.
Definition η (g : rng) (t : nat) : R := variates g (consumed g + 2 * (t - 1) + 1)%nat.

(** The log-volatility recursion of cell 4: [h_0 = h0] and
    [h_{t+1} = ρ·h_t + ν·η_{t+1}]. *)
Fixpoint log_volatility (h0 ρ ν : R) (η : nat -> R) (t : nat) : R :=
  match t with
  | O => h0
  | S t' => ρ * log_volatility h0 ρ ν η t' + ν * η (S t')
  end.

(** The log-return of step [t] of the path that starts in state [g]:
    [μ + σ_t·ξ_{t+1}] with [σ_t = exp(h_t)]. *)
Definition log_return (μ h0 ρ ν : R) (g : rng) (t : nat) : R :=
  μ + exp (log_volatility h0 ρ ν (η g) t) * ξ g (t + 1).

(** [Σ_{m=1..M} f m]. *)
Definition Rsum_from_1 (f : nat -> R) (M : nat) : R :=
  Rsum (fun i => f (i + 1)%nat) M.

(** The source that yields [xs 1], [es 1], [xs 2], [es 2], ... *)
Definition source_of (xs es : nat -> R) : rng :=
  {| variates := fun i => if Nat.even i then xs (i / 2 + 1)%nat
                          else es (i / 2 + 1)%nat;
     consumed := 0 |}.

(** A source all of whose variates are [0], not yet drawn from. *)
Definition zero_source : rng := {| variates := fun _ => 0; consumed := 0 |}.

(** The [m]-th realization [S_n^m] ([m = 1, 2, ...]) drawn from the
    source in state [g]: every path consumes [2·n] variates, so path [m]
    starts after [2·n·(m-1)] draws. *)
Definition realization (μ S0 h0 : R) (n : Z) (ρ ν : R) (g : rng) (m : nat) : R :=
  fst (path_simulator μ S0 h0 n ρ ν (advance g (2 * Z.to_nat n * (m - 1)))).

(** *** Parameter sets *)

Record params := {
  β : R; μ : R; S0 : R; h0 : R; K : R; n : Z; ρ : R; ν : R; M : Z
}.

(** A Python number used in floating-point arithmetic. *)
Definition to_R (v : value) : R :=
  match v with
  | PyInt z => IZR z
  | PyFloat q => Q2R q
  end.

(** A Python number used as a count ([range] takes an [int] only). *)
Definition to_int (v : value) : option Z :=
  match v with
  | PyInt z => Some z
  | PyFloat _ => None
  end.

(** The arguments of the call [price_option(β, μ, S0, h0, K, n, ρ, ν, M)]
    read from the globals. *)
Definition params_of_globals (g : globals) : option params :=
  vβ ← g !! "β"; vμ ← g !! "μ"; vS0 ← g !! "S0"; vh0 ← g !! "h0";
  vK ← g !! "K"; vn ← g !! "n" ≫= to_int; vρ ← g !! "ρ"; vν ← g !! "ν";
  vM ← g !! "M" ≫= to_int;
  Some {| β := to_R vβ; μ := to_R vμ; S0 := to_R vS0; h0 := to_R vh0;
          K := to_R vK; n := vn; ρ := to_R vρ; ν := to_R vν; M := vM |}.

(** The parameter set that the notebook binds. *)
Definition default_parameters : option params :=
  run_notebook european_call_option ≫= params_of_globals.

(** The constraints of the data model (3) on a parameter set. *)
Definition data_model (p : params) : Prop :=
  0 < β p <= 1 /\ 0 < S0 p /\ 0 < K p /\ (1 <= n p)%Z /\
  Rabs (ρ p) < 1 /\ 0 <= ν p /\ (1 <= M p)%Z.

(** Modelled from the spec: the condition under which input validation
    rejects a parameter set (7); the notebook has no validation code. *)
Definition invalid_parameter (p : params) : Prop :=
  (M p < 1)%Z \/ (n p < 0)%Z \/ S0 p <= 0 \/ K p < 0.

End Model.

(** ** The pricing model in double precision

    The specification asks for double-precision floating point throughout
    (4.2) and for a validation of the inputs (7).  This module is the same
    computation as [Model], operation by operation, on binary64 numbers. *)

Module F64.

Local Open Scope float_scope.

(** Modelled from the spec: the source of standard-normal variates (6), as
    in [Model], yielding doubles. *)
Record rng := { variates : nat -> float; consumed : nat }.

(** Modelled from the spec: one draw. *)
Definition randn (g : rng) : float * rng :=
  (variates g (consumed g),
   {| variates := variates g; consumed := S (consumed g) |}).

(** The source that yields the elements of [l], then zeros. *)
Definition source_of_list (l : list float) : rng :=
  {| variates := fun i => nth i l 0; consumed := 0 |}.

Definition zero_source : rng := source_of_list [].

(** [for _ in range(k): a = body(a)], the generator state threaded. *)
Fixpoint repeat_m {A : Type} (k : nat) (body : A -> rng -> A * rng) (a : A)
    (g : rng) : A * rng :=
  match k with
  | O => (a, g)
  | S k' => let (a', g') := body a g in repeat_m k' body a' g'
  end.

(** *** The exponential of the math library

    The notebook has no code that calls it; the specification names
    [exp] and leaves it to the platform.  The model is an algorithm of
    the usual form: [x = k·ln 2 + r] with [k] an integer and
    [|r| ≤ ln 2 / 2], the series of [exp r] to the term [r^14/14!], and a
    scaling by [2^k].  It overflows to [+inf] above 709.782712893384 and
    underflows to [0] below -745.1332191019412, as binary64 forces every
    library to do, and agrees with a correctly rounded [exp] to the last
    digit or the one before. *)

(** The integer nearest to [x], for [|x| < 2^51]. *)
Definition round_int (x : float) : float :=
  (x + 6755399441055744) - 6755399441055744.

(** [1 + r/1·(1 + r/2·(... (1 + r/k)))], from the innermost term. *)
Fixpoint exp_series (k : nat) (kf r acc : float) : float :=
  match k with
  | O => acc
  | S k' => exp_series k' (kf - 1) r (1 + r / kf * acc)
  end.

(** [p · 2^k] by exact doublings and halvings. *)
Fixpoint scale2 (fuel : nat) (p k : float) : float :=
  match fuel with
  | O => p
  | S fuel' =>
      if 1 <=? k then scale2 fuel' (p * 2) (k - 1)
      else if k <=? -1 then scale2 fuel' (p * 0.5) (k + 1)
      else p
  end.

(** [p · 2^k] for [p] near 1; a result below the normal range is rounded
    once, by the last multiplication. *)
Definition scale (p k : float) : float :=
  if k <? -1000 then scale2 1100 p (k + 1000) * 0x1p-1000
  else scale2 1100 p k.

Definition exp (x : float) : float :=
  if is_nan x then nan
  else if 0x1.62e42fefa39efp+9 <? x then infinity
  else if x <? -0x1.74910d52d3052p+9 then 0
  else
    let k := round_int (x * 0x1.71547652b82fep+0) in
    let r := (x - k * 0x1.62e42feep-1) - k * 0x1.a39ef35793c76p-33 in
    scale (exp_series 14 14 r 1) k.

(** [β**n] for a count [n ≥ 0], by repeated multiplication. *)
Fixpoint pow (β : float) (k : nat) : float :=
  match k with
  | O => 1
  | S k' => pow β k' * β
  end.

(** The double of a Python [int] (exact below [2^53]). *)
Fixpoint of_pos (p : positive) : float :=
  match p with
  | xH => 1
  | xO q => 2 * of_pos q
  | xI q => 2 * of_pos q + 1
  end.

Definition of_Z (z : Z) : float :=
  match z with
  | Z0 => 0
  | Zpos p => of_pos p
  | Zneg p => - of_pos p
  end.

(** *** The computation *)

(** Modelled from the spec: one step of the path simulator (4.1), as
    [Model.path_step]. *)
Definition path_step (μ ρ ν : float) (st : float * float) (g : rng)
    : (float * float) * rng :=
  let (s, h) := st in
  let (ξ, g1) := randn g in
  let (η, g2) := randn g1 in
  let h' := ρ * h + ν * η in
  let σ := exp h in
  ((s * exp (μ + σ * ξ), h'), g2).

(** Modelled from the spec: the state [(S_t, h_t)] after [t] steps. *)
Definition path_state (μ S0 h0 ρ ν : float) (t : nat) (g : rng)
    : (float * float) * rng :=
  repeat_m t (path_step μ ρ ν) (S0, h0) g.

(** Modelled from the spec: the terminal price of one path (4.1). *)
Definition path_simulator (μ S0 h0 : float) (n : Z) (ρ ν : float) (g : rng)
    : float * rng :=
  let (st, g') := path_state μ S0 h0 ρ ν (Z.to_nat n) g in (fst st, g').

(** Modelled from the spec: [max(S_n - K, 0)] as Python's [max] computes
    it: the first argument unless the second is greater. *)
Definition payoff (K s : float) : float :=
  let x := s - K in if x <? 0 then 0 else x.

(** Modelled from the spec: one iteration of the aggregator (4.2). *)
Definition mc_step (μ S0 h0 K : float) (n : Z) (ρ ν : float)
    (current_sum : float) (g : rng) : float * rng :=
  let (s, g') := path_simulator μ S0 h0 n ρ ν g in
  (current_sum + payoff K s, g').

Inductive result :=
  | InvalidParameter
  | Estimate (p : float).

(** Modelled from the spec: the inputs that validation rejects (7). *)
Definition invalid (S0 K : float) (n M : Z) : bool :=
  (M <? 1)%Z || (n <? 0)%Z || (S0 <=? 0) || (K <? 0).

(** Modelled from the spec: [price_option(β, μ, S0, h0, K, n, ρ, ν, M)]
    (6), with the validation of 7 and the aggregator of 4.2. *)
Definition price_option (β μ S0 h0 K : float) (n : Z) (ρ ν : float) (M : Z)
    (g : rng) : result * rng :=
  if invalid S0 K n M then (InvalidParameter, g)
  else
    let (total, g') := repeat_m (Z.to_nat M) (mc_step μ S0 h0 K n ρ ν) 0 g in
    (Estimate (pow β (Z.to_nat n) * (1 / of_Z M) * total), g').

End F64.

Import Model.

Local Open Scope R_scope.

(** ** The two code cells *)

Definition blank_cell : cell :=
  {| cell_type := markdown; execution_count := None; source := [] |}.

(** Cell 7, the parameter assignments, and cell 9, the cell left for the
    implementation. *)
Definition parameter_cell : cell := nth 7 european_call_option blank_cell.
Definition implementation_cell : cell := nth 9 european_call_option blank_cell.

(** A code cell with the lines [ls]. *)
Definition code_cell (ls : list string) : cell :=
  {| cell_type := code; execution_count := None; source := ls |}.

(** The name that a statement binds and the value it binds it to. *)
Definition target (st : stmt) : string :=
  match st with Assign x _ => x end.

Definition assigned (st : stmt) : value :=
  match st with Assign _ e => eval e end.

Definition binding (st : stmt) : string * value := (target st, assigned st).

(** The bindings that the parameter cell makes. *)
Definition parameter_bindings : gmap string value :=
  list_to_map
    [("β", PyFloat 0.96); ("μ", PyFloat 0.005); ("S0", PyInt 10);
     ("h0", PyInt 0); ("K", PyInt 100); ("n", PyInt 10);
     ("ρ", PyFloat 0.5); ("ν", PyFloat 0.01); ("M", PyInt 5000000)].

(** * Properties *)

(** ** Generator states and loops *)

Lemma advance_0 g : advance g 0 = g.
Proof. destruct g as [v c]. unfold advance. simpl. f_equal. lia. Qed.

Lemma advance_advance g a b : advance (advance g a) b = advance g (a + b).
Proof. unfold advance. simpl. f_equal. lia. Qed.

Lemma advance_eq g a b : a = b -> advance g a = advance g b.
Proof. intros ->. reflexivity. Qed.

(** Unrolling a loop at its last iteration. *)
Lemma repeat_m_snoc {A : Type} (body : A -> Rand A) k : forall a g,
  repeat_m (S k) body a g = let (a', g') := repeat_m k body a g in body a' g'.
Proof.
  induction k as [|k IH]; intros a g.
  - simpl. unfold mbind, Rand_bind, mret, Rand_ret.
    destruct (body a g). reflexivity.
  - change (repeat_m (S (S k)) body a g)
      with (let (a', g') := body a g in repeat_m (S k) body a' g').
    change (repeat_m (S k) body a g)
      with (let (a', g') := body a g in repeat_m k body a' g').
    destruct (body a g) as [a1 g1]. apply IH.
Qed.

Lemma path_step_eq μ ρ ν s h g :
  path_step μ ρ ν (s, h) g =
  ((s * exp (μ + exp h * variates g (consumed g)),
    ρ * h + ν * variates g (S (consumed g))),
   advance g 2).
Proof.
  unfold path_step, advance, randn, mbind, Rand_bind, mret, Rand_ret. simpl.
  repeat f_equal. lia.
Qed.

(** ** The path simulator *)

Section Path.

Variables μ S0 h0 ρ ν : R.

Lemma path_state_S t g :
  path_state μ S0 h0 ρ ν (S t) g =
  let (st, g') := path_state μ S0 h0 ρ ν t g in path_step μ ρ ν st g'.
Proof. unfold path_state. apply repeat_m_snoc. Qed.

Lemma xi_next g t : ξ g (t + 1) = variates g (consumed g + 2 * t)%nat.
Proof. unfold ξ. f_equal. lia. Qed.

Lemma eta_next g t : η g (S t) = variates g (S (consumed g + 2 * t)).
Proof. unfold η. f_equal. lia. Qed.

(** After [t] steps the price is [S0] times the exponential of the sum
    of the first [t] log-returns, the log-volatility is [h_t], and [2·t]
    variates have been consumed. *)
Lemma path_state_closed_form t : forall g,
  path_state μ S0 h0 ρ ν t g =
  ((S0 * exp (Rsum (log_return μ h0 ρ ν g) t), log_volatility h0 ρ ν (η g) t),
   advance g (2 * t)).
Proof.
  induction t as [|t IH]; intros g.
  - unfold path_state. simpl repeat_m. unfold mret, Rand_ret. simpl.
    rewrite exp_0, Rmult_1_r, advance_0. reflexivity.
  - rewrite path_state_S, IH, path_step_eq. cbn [variates consumed advance].
    rewrite advance_advance. f_equal; [f_equal|apply advance_eq; lia].
    + cbn [Rsum]. rewrite (exp_plus (Rsum (log_return μ h0 ρ ν g) t)), Rmult_assoc.
      do 2 f_equal. unfold log_return. rewrite xi_next. reflexivity.
    + cbn [log_volatility]. rewrite eta_next. reflexivity.
Qed.

Lemma path_simulator_eq (n : Z) g :
  path_simulator μ S0 h0 n ρ ν g =
  (S0 * exp (Rsum (log_return μ h0 ρ ν g) (Z.to_nat n)), advance g (2 * Z.to_nat n)).
Proof.
  unfold path_simulator, mbind, Rand_bind, mret, Rand_ret.
  rewrite path_state_closed_form. reflexivity.
Qed.

Lemma log_path_step_eq s h g :
  log_path_step μ ρ ν (s, h) g =
  ((s + (μ + exp h * variates g (consumed g)),
    ρ * h + ν * variates g (S (consumed g))),
   advance g 2).
Proof.
  unfold log_path_step, advance, randn, mbind, Rand_bind, mret, Rand_ret. simpl.
  repeat f_equal. lia.
Qed.

Lemma log_path_closed_form s t : forall g,
  repeat_m t (log_path_step μ ρ ν) (s, h0) g =
  ((s + Rsum (log_return μ h0 ρ ν g) t, log_volatility h0 ρ ν (η g) t),
   advance g (2 * t)).
Proof.
  induction t as [|t IH]; intros g.
  - cbn [repeat_m Rsum log_volatility]. unfold mret, Rand_ret.
    rewrite Rplus_0_r, advance_0. reflexivity.
  - rewrite repeat_m_snoc, IH, log_path_step_eq. cbn [variates consumed advance].
    rewrite advance_advance. f_equal; [f_equal|apply advance_eq; lia].
    + cbn [Rsum]. rewrite Rplus_assoc. do 2 f_equal.
      unfold log_return. rewrite xi_next. reflexivity.
    + cbn [log_volatility]. rewrite eta_next. reflexivity.
Qed.

(** For a positive initial price the two forms of the simulator that 4.1
    allows return the same price and leave the source in the same state. *)
Lemma path_simulator_log_agrees (n : Z) g :
  0 < S0 -> path_simulator_log μ S0 h0 n ρ ν g = path_simulator μ S0 h0 n ρ ν g.
Proof.
  intros HS0. rewrite path_simulator_eq.
  unfold path_simulator_log, mbind, Rand_bind, mret, Rand_ret.
  rewrite log_path_closed_form. cbn [fst].
  rewrite exp_plus, exp_ln by exact HS0. reflexivity.
Qed.

End Path.

(** Every pair of innovation sequences is what some source yields. *)
Lemma source_of_innovations (xs es : nat -> R) (t : nat) :
  (1 <= t)%nat -> ξ (source_of xs es) t = xs t /\ η (source_of xs es) t = es t.
Proof.
  intros Ht. unfold ξ, η, source_of. cbn [variates consumed Nat.add].
  assert (He : Nat.even (2 * (t - 1)) = true).
  { rewrite Nat.even_mul. reflexivity. }
  assert (Ho : Nat.even (2 * (t - 1) + 1) = false).
  { rewrite Nat.even_add, He. reflexivity. }
  assert (Hd : ((2 * (t - 1)) / 2 = t - 1)%nat).
  { rewrite Nat.mul_comm. apply Nat.div_mul. discriminate. }
  assert (Hd' : ((2 * (t - 1) + 1) / 2 = t - 1)%nat).
  { rewrite Nat.mul_comm, Nat.add_comm, Nat.div_add by discriminate. reflexivity. }
  rewrite He, Ho, Hd, Hd'. replace (t - 1 + 1)%nat with t by lia. split; reflexivity.
Qed.




(** ** The Monte Carlo aggregator *)

Lemma Rsum_le (f f' : nat -> R) k :
  (forall i, f i <= f' i) -> Rsum f k <= Rsum f' k.
Proof.
  intros Hle. induction k as [|k IH]; cbn [Rsum]; [lra|].
  specialize (Hle k). lra.
Qed.






Section Aggregator.

Variables (μ S0 h0 K : R) (n : Z) (ρ ν : R).

Lemma realization_next g k :
  realization μ S0 h0 n ρ ν g (k + 1) =
  fst (path_simulator μ S0 h0 n ρ ν (advance g (2 * Z.to_nat n * k))).
Proof. unfold realization. replace (k + 1 - 1)%nat with k by lia. reflexivity. Qed.

(** The running sum after [k] paths: the payoffs of the realizations
    [1..k], each drawn from its own block of [2·n] variates. *)
Lemma mc_loop_eq k : forall acc g,
  repeat_m k (mc_step μ S0 h0 K n ρ ν) acc g =
  (acc + Rsum_from_1 (fun m => payoff K (realization μ S0 h0 n ρ ν g m)) k,
   advance g (2 * Z.to_nat n * k)).
Proof.
  induction k as [|k IH]; intros acc g.
  - cbn [repeat_m]. unfold mret, Rand_ret, Rsum_from_1. cbn [Rsum].
    rewrite Nat.mul_0_r, advance_0, Rplus_0_r. reflexivity.
  - rewrite repeat_m_snoc, IH.
    unfold mc_step, mbind, Rand_bind, mret, Rand_ret.
    rewrite path_simulator_eq, advance_advance.
    unfold Rsum_from_1. cbn [Rsum]. rewrite (realization_next g k).
    rewrite path_simulator_eq. cbn [fst].
    f_equal; [lra | apply advance_eq; lia].
Qed.

Lemma price_option_eq β (M : Z) g :
  price_option β μ S0 h0 K n ρ ν M g =
  (powerRZ β n * (1 / IZR M) *
     Rsum_from_1 (fun m => payoff K (realization μ S0 h0 n ρ ν g m)) (Z.to_nat M),
   advance g (2 * Z.to_nat n * Z.to_nat M)).
Proof.
  unfold price_option, mbind, Rand_bind, mret, Rand_ret.
  rewrite mc_loop_eq, Rplus_0_l. reflexivity.
Qed.

End Aggregator.

(** *** Paths do not share draws *)

Lemma Rsum_ext_below (f f' : nat -> R) k :
  (forall i, (i < k)%nat -> f i = f' i) -> Rsum f k = Rsum f' k.
Proof.
  induction k as [|k IH]; intros Heq; cbn [Rsum]; [reflexivity|].
  rewrite IH, (Heq k) by (intros; auto with arith). reflexivity.
Qed.

Lemma log_volatility_ext_upto h0 ρ ν (e e' : nat -> R) t :
  (forall i, (1 <= i <= t)%nat -> e i = e' i) ->
  log_volatility h0 ρ ν e t = log_volatility h0 ρ ν e' t.
Proof.
  induction t as [|t IH]; intros Heq; cbn [log_volatility]; [reflexivity|].
  rewrite IH, (Heq (S t)) by (intros; try apply Heq; lia). reflexivity.
Qed.

(** The [m]-th realization reads the [m]-th block of [2·n] variates and
    nothing else: two sources that agree on the block give the same
    terminal price, whatever the other paths draw. *)
Lemma realization_reads_own_block μ S0 h0 (n : Z) ρ ν (g g' : rng) (m : nat) :
  consumed g = consumed g' ->
  (forall i, (consumed g + 2 * Z.to_nat n * (m - 1) <= i
              < consumed g + 2 * Z.to_nat n * (m - 1) + 2 * Z.to_nat n)%nat ->
             variates g i = variates g' i) ->
  realization μ S0 h0 n ρ ν g m = realization μ S0 h0 n ρ ν g' m.
Proof.
  intros Hc Hv. unfold realization. rewrite !path_simulator_eq. cbn [fst].
  do 2 f_equal. apply Rsum_ext_below. intros t Ht. unfold log_return.
  f_equal. f_equal; [f_equal|].
  - apply log_volatility_ext_upto. intros i Hi.
    unfold η, advance. cbn [variates consumed]. rewrite <- Hc. apply Hv. lia.
  - unfold ξ, advance. cbn [variates consumed]. rewrite <- Hc. apply Hv. lia.
Qed.

(** *** A source without noise

    With every variate equal to [0] the model is deterministic: each
    path ends at [S0·exp(n·μ)]. *)

Lemma Rsum_const (c : R) k : Rsum (fun _ => c) k = INR k * c.
Proof.
  induction k as [|k IH]; [cbn; lra|].
  cbn [Rsum]. rewrite IH, S_INR. lra.
Qed.

Lemma realization_zero_source μ S0 h0 (n : Z) ρ ν (m : nat) :
  realization μ S0 h0 n ρ ν zero_source m = S0 * exp (INR (Z.to_nat n) * μ).
Proof.
  unfold realization. rewrite path_simulator_eq. cbn [fst].
  do 2 f_equal. rewrite <- Rsum_const. apply Rsum_ext_below.
  intros t _. unfold log_return, ξ, advance, zero_source. cbn [variates]. lra.
Qed.

Example price_option_zero_source_in_the_money :
  fst (price_option 0.5 0 10 0 4 2 0.5 0.01 3 zero_source) = 1.5.
Proof.
  rewrite price_option_eq. cbn [fst]. unfold Rsum_from_1.
  change (Z.to_nat 3) with 3%nat. cbn [Rsum].
  rewrite !realization_zero_source, Rmult_0_r, exp_0.
  unfold payoff. rewrite Rmax_left by lra.
  cbn [powerRZ]. change (Pos.to_nat 2) with 2%nat. cbn [pow]. lra.
Qed.

Example price_option_zero_source_out_of_the_money :
  fst (price_option 0.96 0 10 0 100 10 0.5 0.01 2 zero_source) = 0.
Proof.
  rewrite price_option_eq. cbn [fst]. unfold Rsum_from_1.
  change (Z.to_nat 2) with 2%nat. cbn [Rsum].
  rewrite !realization_zero_source, Rmult_0_r, exp_0.
  unfold payoff. rewrite Rmax_right by lra. lra.
Qed.


(** C1.  With [M ≥ 1] the aggregator returns
    [β^n · (1/M) · Σ_{m=1..M} max(S_n^m − K, 0)], where [S_n^m] is the
    terminal price that the path simulator returns on the [m]-th block of
    [2·n] variates of the source; it consumes [2·n·M] variates. *)
Theorem price_option_monte_carlo (β μ S0 h0 K : R) (n : Z) (ρ ν : R) (M : Z) (g : rng) :
  (1 <= M)%Z ->
  fst (price_option β μ S0 h0 K n ρ ν M g) =
    powerRZ β n * (1 / IZR M) *
    Rsum_from_1 (fun m => Rmax (realization μ S0 h0 n ρ ν g m - K) 0) (Z.to_nat M)
  /\ snd (price_option β μ S0 h0 K n ρ ν M g) =
       advance g (2 * Z.to_nat n * Z.to_nat M).
Proof.
  intros _. rewrite price_option_eq. split; reflexivity.
Qed.

Lemma price_option_monte_carlo_witness :
  (1 <= 5000000)%Z /\
  (fst (price_option 0.96 0.005 10 0 100 10 0.5 0.01 5000000 zero_source) =
     powerRZ 0.96 10 * (1 / IZR 5000000) *
     Rsum_from_1
       (fun m => Rmax (realization 0.005 10 0 10 0.5 0.01 zero_source m - 100) 0)
       (Z.to_nat 5000000)
   /\ snd (price_option 0.96 0.005 10 0 100 10 0.5 0.01 5000000 zero_source) =
        advance zero_source (2 * Z.to_nat 10 * Z.to_nat 5000000)).
Proof. split; [lia | apply price_option_monte_carlo; lia]. Defined.





(** ** The computation in double precision *)

#[local] Set Warnings "-inexact-float".

Section DoublePrecision.

Local Open Scope float_scope.

Example exp_values :
  F64.exp 0 = 1 /\ F64.exp 10 = 22026.465794806718
  /\ F64.exp (-1) = 0.36787944117144233
  /\ F64.exp (-745.13) = 0x1p-1074 /\ F64.exp (-746) = 0
  /\ F64.exp 709.78 = 1.7928227943945155e+308 /\ F64.exp 710 = infinity.
Proof. vm_compute. repeat split. Qed.

(** Three steps of a path on given draws. *)
Example path_state_three_steps :
  fst (F64.path_state 0.005 10 0 0.5 0.01 3
         (F64.source_of_list [0.3; -0.2; 1.1; 0.4; -0.7; 0.9])) =
  (20.354136079279577, 0.010500000000000001).
Proof. vm_compute. reflexivity. Qed.

Example price_option_in_the_money :
  fst (F64.price_option 0.5 0 10 0 4 2 0.5 0.01 3 F64.zero_source) =
  F64.Estimate 1.5.
Proof. vm_compute. reflexivity. Qed.

Example price_option_rejects :
  fst (F64.price_option 0.96 0.005 10 0 100 10 0.5 0.01 0 F64.zero_source) =
    F64.InvalidParameter
  /\ fst (F64.price_option 0.96 0.005 10 0 100 (-1) 0.5 0.01 5 F64.zero_source) =
       F64.InvalidParameter
  /\ fst (F64.price_option 0.96 0.005 0 0 100 10 0.5 0.01 5 F64.zero_source) =
       F64.InvalidParameter
  /\ fst (F64.price_option 0.96 0.005 10 0 (-1) 10 0.5 0.01 5 F64.zero_source) =
       F64.InvalidParameter.
Proof. vm_compute. repeat split. Qed.



End DoublePrecision.


(** ** The notebook's code *)

Example eval_number_underscores : eval_number "5_000_000" = Some (PyInt 5000000).
Proof. reflexivity. Qed.

Example eval_number_fraction : eval_number "0.005" = Some (PyFloat 0.005).
Proof. reflexivity. Qed.

Example eval_number_leading_zero : eval_number "010" = None.
Proof. reflexivity. Qed.

Example parse_line_assignment :
  parse_line "ρ = 0.5" = Some (Some (Assign "ρ" (Constant (PyFloat 0.5)))).
Proof. reflexivity. Qed.

Example parse_line_outside_fragment :
  parse_line "def price_option(β, μ, S0, h0, K, n, ρ, ν, M):" = None.
Proof. reflexivity. Qed.

Lemma run_notebook_eq :
  run_notebook european_call_option =
  Some (list_to_map
          [("β", PyFloat 0.96); ("μ", PyFloat 0.005); ("S0", PyInt 10);
           ("h0", PyInt 0); ("K", PyInt 100); ("n", PyInt 10);
           ("ρ", PyFloat 0.5); ("ν", PyFloat 0.01); ("M", PyInt 5000000)]).
Proof. vm_compute. reflexivity. Qed.

Lemma default_parameters_eq :
  default_parameters =
  Some {| β := 0.96; μ := 0.005; S0 := 10; h0 := 0; K := 100; n := 10;
          ρ := 0.5; ν := 0.01; M := 5000000 |}.
Proof. reflexivity. Qed.

(** C4.  Running the notebook binds exactly the nine names of the
    external interface, to the values that the interface states:
    β=0.96, μ=0.005, S0=10, h0=0, K=100, n=10, ρ=0.5, ν=0.01, M=5,000,000;
    they are the arguments that a call of [price_option] receives. *)
Theorem default_parameters_as_stated :
  run_notebook european_call_option =
    Some (list_to_map
            [("β", PyFloat 0.96); ("μ", PyFloat 0.005); ("S0", PyInt 10);
             ("h0", PyInt 0); ("K", PyInt 100); ("n", PyInt 10);
             ("ρ", PyFloat 0.5); ("ν", PyFloat 0.01); ("M", PyInt 5000000)])
  /\ default_parameters =
       Some {| β := 0.96; μ := 0.005; S0 := 10; h0 := 0; K := 100; n := 10;
               ρ := 0.5; ν := 0.01; M := 5000000 |}.
Proof. split; [exact run_notebook_eq | exact default_parameters_eq]. Qed.

(** C9.  The default parameter set satisfies every constraint of the
    data model (0<β≤1, S0>0, K>0, n≥1, |ρ|<1, ν≥0, M≥1), so the
    validation condition (M<1, n<0, S0≤0 or K<0) is false on it. *)
Theorem default_parameters_valid :
  exists p, default_parameters = Some p /\ data_model p /\ ~ invalid_parameter p.
Proof.
  eexists. split; [exact default_parameters_eq|].
  unfold data_model, invalid_parameter. cbn [β S0 K n ρ ν M].
  repeat split; try lra; try lia.
  - apply Rabs_def1; lra.
  - intros [H | [H | [H | H]]]; try lia; lra.
Qed.

(** C10.  The notebook has two code cells.  The first is nine assignments
    of numeric constants; the second is empty.  Running the notebook
    therefore binds numbers only, and no [price_option]. *)
Theorem notebook_has_no_implementation :
  exists params_cell impl_cell,
    code_cells european_call_option = [params_cell; impl_cell]
    /\ (exists sts, parse_lines (source params_cell) = Some sts
                    /\ length sts = 9%nat
                    /\ Forall (fun st => exists x v, st = Assign x (Constant v)) sts)
    /\ source impl_cell = []
    /\ program european_call_option = parse_lines (source params_cell)
    /\ exists g, run_notebook european_call_option = Some g
                 /\ size g = 9%nat
                 /\ g !! "price_option" = None.
Proof.
  do 2 eexists. split; [reflexivity|]. cbn [source].
  split; [|split; [reflexivity|split; [reflexivity|]]].
  - eexists. split; [vm_compute; reflexivity|]. split; [reflexivity|].
    repeat constructor; eauto.
  - eexists. split; [exact run_notebook_eq|]. split; vm_compute; reflexivity.
Qed.

(** ** Running the cells in a used kernel

    The parameter cell carries the execution count 20: it was run in a
    kernel that had run other cells before.  The properties below hold
    for every namespace that the kernel may hold at that point. *)

Section Namespace.

Implicit Types (g : gmap string value) (sts : list stmt) (st : stmt).

Lemma exec_all_cons g st sts : exec_all g (st :: sts) = exec_all (exec g st) sts.
Proof. reflexivity. Qed.

Lemma exec_lookup_ne g st (x : string) : x ≠ target st -> exec g st !! x = g !! x.
Proof. destruct st as [y e]. cbn. intros Hne. apply lookup_insert_ne. congruence. Qed.

Lemma exec_lookup_target g st : exec g st !! target st = Some (assigned st).
Proof. destruct st as [y e]. cbn. apply lookup_insert_eq. Qed.

(** A name that no statement assigns keeps its binding, or its absence. *)
Lemma exec_all_lookup_other sts : forall g (x : string),
  x ∉ target <$> sts -> exec_all g sts !! x = g !! x.
Proof.
  induction sts as [|st sts IH]; intros g x Hx; [reflexivity|].
  rewrite fmap_cons, not_elem_of_cons in Hx. destruct Hx as [Hne Hx].
  rewrite exec_all_cons, IH by exact Hx. apply exec_lookup_ne, Hne.
Qed.

(** When no name is assigned twice, every statement's binding survives
    to the end. *)
Lemma exec_all_lookup_assigned sts : forall g st,
  NoDup (target <$> sts) -> st ∈ sts ->
  exec_all g sts !! target st = Some (assigned st).
Proof.
  induction sts as [|st0 sts IH]; intros g st Hnd Hin.
  - apply elem_of_nil in Hin. contradiction.
  - rewrite fmap_cons, NoDup_cons in Hnd. destruct Hnd as [Hfresh Hnd].
    rewrite exec_all_cons. apply elem_of_cons in Hin. destruct Hin as [-> | Hin].
    + rewrite exec_all_lookup_other by exact Hfresh. apply exec_lookup_target.
    + apply IH; assumption.
Qed.

Lemma exec_all_permutation g sts sts' :
  NoDup (target <$> sts) -> sts ≡ₚ sts' -> exec_all g sts = exec_all g sts'.
Proof.
  intros Hnd Hp. assert (Hnd' : NoDup (target <$> sts')) by (rewrite <- Hp; exact Hnd).
  apply map_eq. intros x. destruct (decide (x ∈ target <$> sts)) as [Hin | Hout].
  - apply list_elem_of_fmap in Hin. destruct Hin as (st & -> & Hin).
    rewrite !exec_all_lookup_assigned; try assumption; [reflexivity|].
    rewrite <- Hp. exact Hin.
  - rewrite !exec_all_lookup_other; [reflexivity | | exact Hout].
    rewrite <- Hp. exact Hout.
Qed.

(** Reordering lines reorders the statements they parse to. *)
Lemma parse_lines_permutation (ls ls' : list string) :
  ls ≡ₚ ls' -> forall sts, parse_lines ls = Some sts ->
  exists sts', parse_lines ls' = Some sts' /\ sts ≡ₚ sts'.
Proof.
  induction 1 as [|l ls ls' Hp IH|l1 l2 ls|ls1 ls2 ls3 _ IH1 _ IH2]; intros sts Hsts.
  - exists sts. split; [exact Hsts | reflexivity].
  - cbn [parse_lines] in *. destruct (parse_line l) as [[st|]|]; [| |discriminate].
    + destruct (parse_lines ls) as [sts0|]; [|discriminate].
      injection Hsts as <-. destruct (IH sts0 eq_refl) as (sts' & -> & Hp').
      exists (st :: sts'). split; [reflexivity | by constructor].
    + destruct (parse_lines ls) as [sts0|]; [|discriminate].
      injection Hsts as <-. destruct (IH sts0 eq_refl) as (sts' & -> & Hp').
      exists sts'. split; [reflexivity | exact Hp'].
  - cbn [parse_lines] in *.
    destruct (parse_line l1) as [[st1|]|], (parse_line l2) as [[st2|]|],
      (parse_lines ls) as [sts0|]; try discriminate;
      injection Hsts as <-; eexists; (split; [reflexivity|]);
      try reflexivity; apply perm_swap.
  - destruct (IH1 sts Hsts) as (sts2 & H2 & Hp2).
    destruct (IH2 sts2 H2) as (sts3 & H3 & Hp3).
    exists sts3. split; [exact H3 | by etrans].
Qed.

(** Statements that assign no name twice add their bindings to the
    namespace, over whatever it held under these names. *)
Lemma exec_all_union g sts :
  NoDup (target <$> sts) ->
  exec_all g sts = list_to_map (binding <$> sts) ∪ g.
Proof.
  intros Hnd. assert (Hfst : (binding <$> sts).*1 = target <$> sts).
  { rewrite <- list_fmap_compose. reflexivity. }
  apply map_eq. intros x. destruct (decide (x ∈ target <$> sts)) as [Hin | Hout].
  - apply list_elem_of_fmap in Hin. destruct Hin as (st & -> & Hin).
    rewrite exec_all_lookup_assigned by assumption. symmetry.
    apply lookup_union_Some_l, elem_of_list_to_map; [rewrite Hfst; exact Hnd|].
    apply (list_elem_of_fmap_2 binding), Hin.
  - rewrite exec_all_lookup_other by exact Hout. symmetry.
    rewrite lookup_union_r; [reflexivity|].
    apply not_elem_of_list_to_map_1. rewrite Hfst. exact Hout.
Qed.

End Namespace.

Lemma code_cells_eq :
  code_cells european_call_option = [parameter_cell; implementation_cell].
Proof. reflexivity. Qed.

Lemma parameter_cell_statements :
  exists sts, parse_lines (source parameter_cell) = Some sts
    /\ NoDup (target <$> sts)
    /\ list_to_map (binding <$> sts) = parameter_bindings.
Proof.
  eexists. split; [vm_compute; reflexivity|]. split.
  - apply (bool_decide_unpack _). vm_compute. reflexivity.
  - vm_compute. reflexivity.
Qed.

Lemma run_parameter_cell_eq (g : gmap string value) :
  run_cell g parameter_cell = Some (parameter_bindings ∪ g).
Proof.
  destruct parameter_cell_statements as (sts & Hparse & Hnd & Hmap).
  unfold run_cell. rewrite Hparse. cbn [option_map].
  rewrite exec_all_union by exact Hnd. rewrite Hmap. reflexivity.
Qed.

Lemma parameter_bindings_lookup_union (g : gmap string value) (x : string) v :
  parameter_bindings !! x = Some v -> (parameter_bindings ∪ g) !! x = Some v.
Proof. apply lookup_union_Some_l. Qed.

(** X1.  Whatever the namespace held before, running the parameter cell
    succeeds and leaves the nine parameters bound to the cell's values
    and every other name as it was. *)
Theorem parameter_cell_in_any_namespace (g : gmap string value) :
  exists g', run_cell g parameter_cell = Some g'
    /\ g' = parameter_bindings ∪ g
    /\ (forall (x : string) v, parameter_bindings !! x = Some v -> g' !! x = Some v)
    /\ (forall x : string, parameter_bindings !! x = None -> g' !! x = g !! x).
Proof.
  exists (parameter_bindings ∪ g). split; [apply run_parameter_cell_eq|].
  split; [reflexivity|]. split.
  - intros x v. apply parameter_bindings_lookup_union.
  - intros x Hx. apply lookup_union_r, Hx.
Qed.

(** X3.  The lines of the parameter cell can be put in any order: no
    name is assigned twice, so the resulting namespace is the same. *)
Theorem parameter_cell_order_irrelevant (g : gmap string value) (ls : list string) :
  source parameter_cell ≡ₚ ls ->
  run_cell g (code_cell ls) = run_cell g parameter_cell.
Proof.
  intros Hp. destruct parameter_cell_statements as (sts & Hparse & Hnd & _).
  destruct (parse_lines_permutation _ _ Hp sts Hparse) as (sts' & Hparse' & Hp').
  unfold run_cell. cbn [code_cell source]. rewrite Hparse, Hparse'. cbn [option_map].
  f_equal. symmetry. apply exec_all_permutation; assumption.
Qed.

Lemma parameter_cell_order_irrelevant_witness :
  source parameter_cell ≡ₚ rev (source parameter_cell) /\
  run_cell ∅ (code_cell (rev (source parameter_cell))) = run_cell ∅ parameter_cell.
Proof.
  assert (Hp : source parameter_cell ≡ₚ rev (source parameter_cell)).
  { apply (bool_decide_unpack _). vm_compute. reflexivity. }
  split; [exact Hp | apply parameter_cell_order_irrelevant, Hp].
Defined.

(** X4.  Running the whole notebook in a kernel that holds any namespace
    does what the parameter cell alone does (the implementation cell is
    empty and the markdown cells are not run), and the nine arguments of
    the call [price_option(β, μ, S0, h0, K, n, ρ, ν, M)] are then the
    default parameter set, whatever the namespace held before. *)
Theorem notebook_in_any_namespace (g : gmap string value) :
  run_cells g (code_cells european_call_option) = run_cell g parameter_cell
  /\ (run_cells g (code_cells european_call_option) ≫= params_of_globals) =
     default_parameters
  /\ is_Some default_parameters.
Proof.
  assert (Hrun : run_cells g (code_cells european_call_option) =
                 Some (parameter_bindings ∪ g)).
  { rewrite code_cells_eq. cbn [run_cells]. rewrite run_parameter_cell_eq.
    reflexivity. }
  split; [rewrite Hrun, run_parameter_cell_eq; reflexivity|].
  split; [|rewrite default_parameters_eq; eexists; reflexivity].
  rewrite Hrun, default_parameters_eq. cbn [mbind option_bind].
  unfold params_of_globals.
  rewrite (parameter_bindings_lookup_union g "β" (PyFloat 0.96) eq_refl).
  rewrite (parameter_bindings_lookup_union g "μ" (PyFloat 0.005) eq_refl).
  rewrite (parameter_bindings_lookup_union g "S0" (PyInt 10) eq_refl).
  rewrite (parameter_bindings_lookup_union g "h0" (PyInt 0) eq_refl).
  rewrite (parameter_bindings_lookup_union g "K" (PyInt 100) eq_refl).
  rewrite (parameter_bindings_lookup_union g "n" (PyInt 10) eq_refl).
  rewrite (parameter_bindings_lookup_union g "ρ" (PyFloat 0.5) eq_refl).
  rewrite (parameter_bindings_lookup_union g "ν" (PyFloat 0.01) eq_refl).
  rewrite (parameter_bindings_lookup_union g "M" (PyInt 5000000) eq_refl).
  cbn [mbind option_bind to_int].
  reflexivity.
Qed.
